(** * Command layer of libperseus (robot_command.hpp, controller.h)

    A shallow embedding of the command types, status vocabulary, command
    sequence ([RobotCommand]) and command-id generator of
    [wisson_SDK::control].  [uint32_t] values are [Z] with the wrap-around
    written out, [double] is the primitive binary64 [float], [std::vector]
    and [std::array] are lists, [std::string_view] is [string], and a call
    that may throw returns a [result]. *)

From Stdlib Require Import ZArith Lia List Ascii String Floats Sorting.Sorted.
Import ListNotations.
Open Scope Z_scope.

(** ** Constants and exceptions *)

(** [inline constexpr std::size_t cmd_list_size = 20;] *)
Definition cmd_list_size : nat := 20.

(** [inline constexpr std::size_t JOINT_NUM = 9;] (robot_state.hpp) *)
Definition JOINT_NUM : nat := 9.

(** [double] *)
Definition double : Type := float.

(** The exception types of wisson_exception.h that the command layer throws. *)
Inductive wisson_exception : Type :=
| ConstructorException (what : string)
| ControlException (what : string).

(** A call that returns a value or throws. *)
Inductive result (A : Type) : Type :=
| Ok (a : A)
| Throw (e : wisson_exception).
Arguments Ok {A} a.
Arguments Throw {A} e.

(** ** Command types *)

(** [enum class EndEffectorAction : uint32_t] *)
Inductive EndEffectorAction : Type :=
| Idle
| Open
| Close
| ForceClose.

(** [std::array<double, n>{}]: value-initialised to zeros. *)
Definition zero_array (n : nat) : list double := repeat 0%float n.

(** [struct MotionCommand] *)
Record MotionCommand : Type := mkMotionCommand {
  joint_positions : list double;
  joint_velocities : list double;
  ee_transform : list double;
  ee_velocity : list double;
  elbow : list double;
  has_elbow : bool;
  mc_timeout : double
}.

(** The private default constructor [MotionCommand() = default;] with the
    default member initialisers. *)
Definition MotionCommand_default : MotionCommand := {|
  joint_positions := zero_array JOINT_NUM;
  joint_velocities := zero_array JOINT_NUM;
  ee_transform := zero_array 16;
  ee_velocity := zero_array 6;
  elbow := zero_array 2;
  has_elbow := false;
  mc_timeout := 10.0%float
|}.

(** [MotionCommand::CreateCommand(joint_positions, timeout_s = 30.0)] *)
Definition MotionCommand_CreateCommand (jp : list double) (timeout_s : double)
  : MotionCommand :=
  let cmd := MotionCommand_default in
  let cmd := {| joint_positions := jp;
                joint_velocities := joint_velocities cmd;
                ee_transform := ee_transform cmd;
                ee_velocity := ee_velocity cmd;
                elbow := elbow cmd;
                has_elbow := has_elbow cmd;
                mc_timeout := mc_timeout cmd |} in
  {| joint_positions := joint_positions cmd;
     joint_velocities := joint_velocities cmd;
     ee_transform := ee_transform cmd;
     ee_velocity := ee_velocity cmd;
     elbow := elbow cmd;
     has_elbow := has_elbow cmd;
     mc_timeout := timeout_s |}.

(** The default argument [timeout_s = 30.0]. *)
Definition MotionCommand_CreateCommand_default (jp : list double) : MotionCommand :=
  MotionCommand_CreateCommand jp 30.0%float.

(** [struct TorqueCommand]: a public aggregate. *)
Record TorqueCommand : Type := mkTorqueCommand {
  desired_torque : list double;
  tc_timeout : double
}.

(** [TorqueCommand{}] *)
Definition TorqueCommand_default : TorqueCommand :=
  {| desired_torque := zero_array JOINT_NUM; tc_timeout := 10.0%float |}.

(** [struct EndEffectorCommand]: a public aggregate. *)
Record EndEffectorCommand : Type := mkEndEffectorCommand {
  ee_action : EndEffectorAction;
  ee_timeout : double
}.

(** [EndEffectorCommand{}] *)
Definition EndEffectorCommand_default : EndEffectorCommand :=
  {| ee_action := Idle; ee_timeout := 10.0%float |}.

(** [using SDKCmdVariant = std::variant<MotionCommand, TorqueCommand, EndEffectorCommand>;] *)
Inductive SDKCmdVariant : Type :=
| VMotion (m : MotionCommand)
| VTorque (t : TorqueCommand)
| VEndEffector (e : EndEffectorCommand).

(** What the templates [CreateCommands<CommandType>] and
    [CreateCommand<CommandType>] use of their [CommandType]: the member
    [timeout] and the conversion to [SDKCmdVariant] done by [emplace_back]. *)
Class CommandType (T : Type) := {
  timeout : T -> double;
  to_variant : T -> SDKCmdVariant
}.

#[export] Instance CommandType_Motion : CommandType MotionCommand :=
  {| timeout := mc_timeout; to_variant := VMotion |}.
#[export] Instance CommandType_Torque : CommandType TorqueCommand :=
  {| timeout := tc_timeout; to_variant := VTorque |}.
#[export] Instance CommandType_EndEffector : CommandType EndEffectorCommand :=
  {| timeout := ee_timeout; to_variant := VEndEffector |}.

(** [std::visit([&](auto&& c) { ... c.timeout ... }, cmd)] *)
Definition variant_timeout (v : SDKCmdVariant) : double :=
  match v with
  | VMotion m => timeout m
  | VTorque t => timeout t
  | VEndEffector e => timeout e
  end.

(** ** Command response *)

(** [enum class ResponseStatus : uint32_t] *)
Inductive ResponseStatus : Type :=
| kIdle
| kSending
| kWaiting
| kSubSuccess
| kSuccess
| kFail
| kUserStop
| kTimeout
| kAbort
| kRefused
| kUnknown.

(** [static_cast<uint32_t>(s)]: the enumerators' values 0 .. 10. *)
Definition ResponseStatus_to_uint32 (s : ResponseStatus) : Z :=
  match s with
  | kIdle => 0
  | kSending => 1
  | kWaiting => 2
  | kSubSuccess => 3
  | kSuccess => 4
  | kFail => 5
  | kUserStop => 6
  | kTimeout => 7
  | kAbort => 8
  | kRefused => 9
  | kUnknown => 10
  end.

(** [static_cast<ResponseStatus>(r)] for the values of the enumerators; it is
    applied only to [r] in [kWaiting .. kRefused] below, the last branch is
    never reached from there. *)
Definition ResponseStatus_of_uint32 (r : Z) : ResponseStatus :=
  match r with
  | 0 => kIdle
  | 1 => kSending
  | 2 => kWaiting
  | 3 => kSubSuccess
  | 4 => kSuccess
  | 5 => kFail
  | 6 => kUserStop
  | 7 => kTimeout
  | 8 => kAbort
  | 9 => kRefused
  | _ => kUnknown
  end.

Module detail.

(** [detail::EndEffectorActionToString] (the [default] branch is for values
    of the underlying [uint32_t] that name no enumerator). *)
Definition EndEffectorActionToString (action : EndEffectorAction) : string :=
  match action with
  | Idle => "Idle"
  | Open => "Open"
  | Close => "Close"
  | ForceClose => "ForceClose"
  end.

(** [detail::StringToEndEffectorActionSafe(std::string_view)] *)
Definition StringToEndEffectorActionSafe (str : string) : EndEffectorAction :=
  if String.eqb str "Idle" then Idle
  else if String.eqb str "Open" then Open
  else if String.eqb str "Close" then Close
  else if String.eqb str "ForceClose" then ForceClose
  else Idle.

(** [detail::StringToEndEffectorActionSafe(const char* )]: [None] is the null
    pointer. *)
Definition StringToEndEffectorActionSafe_cstr (str : option string)
  : EndEffectorAction :=
  match str with
  | None => Idle
  | Some s => StringToEndEffectorActionSafe s
  end.

(** [detail::ToResponseStatus(uint32_t result)] *)
Definition ToResponseStatus (result : Z) : ResponseStatus :=
  if ((ResponseStatus_to_uint32 kWaiting <=? result) &&
      (result <=? ResponseStatus_to_uint32 kRefused))%bool
  then ResponseStatus_of_uint32 result
  else kUnknown.

(** [detail::IsActionFinished(ResponseStatus status)] *)
Definition IsActionFinished (status : ResponseStatus) : bool :=
  match status with
  | kSuccess | kUserStop | kTimeout | kAbort | kFail | kRefused => true
  | _ => false
  end.

End detail.

(** ** RobotCommand *)

(** [struct alignas(16) RobotCommand]; the atomics [current_index] and
    [finished] hold plain values here. *)
Record RobotCommand : Type := mkRobotCommand {
  cmd_id : Z;
  cmd_size : nat;
  commands : list SDKCmdVariant;
  total_timeout : double;
  current_index : nat;
  finished : bool;
  status : ResponseStatus
}.

(** The private default constructor [RobotCommand() = default;] with the
    default member initialisers. *)
Definition RobotCommand_default : RobotCommand := {|
  cmd_id := 0;
  cmd_size := 0;
  commands := [];
  total_timeout := 30.0%float;
  current_index := 0;
  finished := false;
  status := kIdle
|}.

Definition set_cmd_id (id : Z) (rc : RobotCommand) : RobotCommand :=
  mkRobotCommand id (cmd_size rc) (commands rc) (total_timeout rc)
    (current_index rc) (finished rc) (status rc).
Definition set_cmd_size (n : nat) (rc : RobotCommand) : RobotCommand :=
  mkRobotCommand (cmd_id rc) n (commands rc) (total_timeout rc)
    (current_index rc) (finished rc) (status rc).
Definition set_commands (l : list SDKCmdVariant) (rc : RobotCommand) : RobotCommand :=
  mkRobotCommand (cmd_id rc) (cmd_size rc) l (total_timeout rc)
    (current_index rc) (finished rc) (status rc).
Definition set_total_timeout (t : double) (rc : RobotCommand) : RobotCommand :=
  mkRobotCommand (cmd_id rc) (cmd_size rc) (commands rc) t
    (current_index rc) (finished rc) (status rc).
Definition set_current_index (i : nat) (rc : RobotCommand) : RobotCommand :=
  mkRobotCommand (cmd_id rc) (cmd_size rc) (commands rc) (total_timeout rc)
    i (finished rc) (status rc).

(** [cmd->commands.emplace_back(c)] *)
Definition emplace_back {T} `{CommandType T} (c : T) (rc : RobotCommand)
  : RobotCommand :=
  set_commands (commands rc ++ [to_variant c]) rc.

(** [for (size_t i = 0; i < N; ++i) { auto c = sequence[i]; cmd->commands.emplace_back(c); }] *)
Fixpoint emplace_all {T} `{CommandType T} (sequence : list T) (rc : RobotCommand)
  : RobotCommand :=
  match sequence with
  | [] => rc
  | c :: rest => emplace_all rest (emplace_back c rc)
  end.

Definition CreateCommands_error : string :=
  "libperseus-RobotCommand: Input command vectors are incorrect.".

(** [RobotCommand::CreateCommands(sequence, total_timeout_s = 30.0)] *)
Definition CreateCommands {T} `{CommandType T} (sequence : list T)
  (total_timeout_s : double) : result RobotCommand :=
  let N := List.length sequence in
  if ((N =? 0)%nat || (cmd_list_size <? N)%nat)%bool
  then Throw (ConstructorException CreateCommands_error)
  else
    let cmd := RobotCommand_default in
    let cmd := set_cmd_size N cmd in
    let cmd := set_total_timeout total_timeout_s cmd in
    Ok (emplace_all sequence cmd).

(** [RobotCommand::CreateCommand(c)] *)
Definition CreateCommand {T} `{CommandType T} (c : T) : RobotCommand :=
  let cmd := RobotCommand_default in
  let cmd := set_cmd_size 1 cmd in
  let cmd := set_total_timeout (timeout c) cmd in
  emplace_back c cmd.

(** [bool HasNext() const { return current_index < commands.size(); }] *)
Definition HasNext (rc : RobotCommand) : bool :=
  (current_index rc <? List.length (commands rc))%nat.

Definition Current_error : string :=
  "libperseus-RobotCommand: current_index out of range".

(** [const SDKCmdVariant& Current() const]; the default of [nth] is never
    read, the guard keeps the index in range. *)
Definition Current (rc : RobotCommand) : result SDKCmdVariant :=
  if (List.length (commands rc) <=? current_index rc)%nat
  then Throw (ControlException Current_error)
  else Ok (nth (current_index rc) (commands rc) (VMotion MotionCommand_default)).

(** [void Advance()] *)
Definition Advance (rc : RobotCommand) : RobotCommand :=
  if (current_index rc <? List.length (commands rc))%nat
  then set_current_index (S (current_index rc)) rc
  else rc.

(** [getJointPositionsVec() const] *)
Definition getJointPositionsVec (rc : RobotCommand) : list (list double) :=
  flat_map (fun v => match v with
                     | VMotion m => [joint_positions m]
                     | _ => []
                     end) (commands rc).

(** [getTimeoutVec() const] *)
Definition getTimeoutVec (rc : RobotCommand) : list double :=
  map variant_timeout (commands rc).

(** [getEEActionsVecStr() const] *)
Definition getEEActionsVecStr (rc : RobotCommand) : list string :=
  flat_map (fun v => match v with
                     | VEndEffector e => [detail.EndEffectorActionToString (ee_action e)]
                     | _ => []
                     end) (commands rc).

(** The member functions of [RobotCommand], as calls on a sequence. *)
Inductive rc_op : Type :=
| OpHasNext
| OpCurrent
| OpAdvance
| OpGetJointPositionsVec
| OpGetTimeoutVec
| OpGetEEActionsVecStr.

Inductive rc_out : Type :=
| OutBool (b : bool)
| OutCurrent (r : result SDKCmdVariant)
| OutUnit
| OutJoints (j : list (list double))
| OutTimeouts (t : list double)
| OutStrings (s : list string).

(** One member-function call: its return value and the sequence after it
    (the [const] members leave it as it is). *)
Definition rc_step (op : rc_op) (rc : RobotCommand) : rc_out * RobotCommand :=
  match op with
  | OpHasNext => (OutBool (HasNext rc), rc)
  | OpCurrent => (OutCurrent (Current rc), rc)
  | OpAdvance => (OutUnit, Advance rc)
  | OpGetJointPositionsVec => (OutJoints (getJointPositionsVec rc), rc)
  | OpGetTimeoutVec => (OutTimeouts (getTimeoutVec rc), rc)
  | OpGetEEActionsVecStr => (OutStrings (getEEActionsVecStr rc), rc)
  end.

Fixpoint run_ops (ops : list rc_op) (rc : RobotCommand) : RobotCommand :=
  match ops with
  | [] => rc
  | op :: rest => run_ops rest (snd (rc_step op rc))
  end.

(** ** Command identifiers *)

(** [static std::atomic<uint32_t> commandId{0};]: one counter for the whole
    process, shared by every [Controller]. *)
Definition commandId_init : Z := 0.

(** [Controller::GenerateCommandId()]: [return ++commandId;] on a
    [uint32_t]; returns the identifier and the counter after the call. *)
Definition GenerateCommandId (commandId : Z) : Z * Z :=
  let c := (commandId + 1) mod 2 ^ 32 in (c, c).

(** [K] successive calls: the identifiers returned, in order, and the
    counter afterwards. *)
Fixpoint GenerateCommandIds (K : nat) (commandId : Z) : list Z * Z :=
  match K with
  | O => ([], commandId)
  | S k =>
      let (id, c) := GenerateCommandId commandId in
      let (ids, c') := GenerateCommandIds k c in
      (id :: ids, c')
  end.

(** Modelled from the spec: the identifier assignment of
    [Controller::ExecuteMotion] (its definition is not among the sources;
    the spec says it assigns a fresh identifier from [GenerateCommandId] to
    the sequence at dispatch).  Returns the dispatched sequence and the
    counter after the call. *)
Definition assign_dispatch_id (commandId : Z) (rc : RobotCommand)
  : RobotCommand * Z :=
  let (id, c) := GenerateCommandId commandId in (set_cmd_id id rc, c).

(** ** Further helpers of robot_command.hpp *)

Module detail2.

(** [detail::ResponseStatusToString] (robot_command.hpp). *)
Definition ResponseStatusToString (status : ResponseStatus) : string :=
  match status with
  | kIdle => "Idle"
  | kSending => "Sending"
  | kWaiting => "Waiting"
  | kSubSuccess => "Step Successful"
  | kSuccess => "Action Completed"
  | kFail => "Fail"
  | kUserStop => "User-Stop"
  | kTimeout => "Timeout"
  | kAbort => "Abort"
  | kRefused => "Command Refused"
  | kUnknown => "Unknown"
  end.

End detail2.

(** [enum class RefusedReason : uint32_t] *)
Inductive RefusedReason : Type :=
| RR_None
| RR_InvalidRequest
| RR_Unauthorized
| RR_NotFound
| RR_ServerError
| RR_Timeout
| RR_WrongRequestSource
| RR_SelfCheckInProgress
| RR_RobotBusy
| RR_RobotDismatch.

(** [detail::RefusedReasonToString] *)
Definition RefusedReasonToString (reason : RefusedReason) : string :=
  match reason with
  | RR_None => "None"
  | RR_InvalidRequest => "InvalidRequest"
  | RR_Unauthorized => "Unauthorized"
  | RR_NotFound => "NotFound"
  | RR_ServerError => "ServerError"
  | RR_Timeout => "Timeout"
  | RR_WrongRequestSource => "WrongRequestSource"
  | RR_SelfCheckInProgress => "SelfCheckInProgress"
  | RR_RobotBusy => "RobotBusy"
  | RR_RobotDismatch => "RobotDismatch"
  end.

(** ** Controller mode (the controller header appended to robot_command.hpp) *)

(** [enum class ControlSpace : uint8_t] *)
Inductive ControlSpace : Type :=
| CS_kJoint | CS_kCartesian | CS_kTask | CS_kNullSpace | CS_kUserDefined | CS_kUnknown.

(** [enum class ControlType : uint8_t] *)
Inductive ControlType : Type :=
| CT_kPosition | CT_kVelocity | CT_kTorque | CT_kImpedance | CT_kAdmittance
| CT_kCommand | CT_kExtern | CT_kUnknown.

(** [detail::ControlSpaceToString] *)
Definition ControlSpaceToString (cs : ControlSpace) : string :=
  match cs with
  | CS_kJoint => "Joint"
  | CS_kCartesian => "Cartesian"
  | CS_kTask => "Task"
  | CS_kNullSpace => "NullSpace"
  | CS_kUserDefined => "UserDefined"
  | CS_kUnknown => "UnknownSpace"
  end.

(** [detail::ControlTypeToString] *)
Definition ControlTypeToString (ct : ControlType) : string :=
  match ct with
  | CT_kPosition => "Position"
  | CT_kVelocity => "Velocity"
  | CT_kTorque => "Torque"
  | CT_kImpedance => "Impedance"
  | CT_kAdmittance => "Admittance"
  | CT_kCommand => "Command"
  | CT_kExtern => "Extern"
  | CT_kUnknown => "UnknownType"
  end.

Definition ControlSpace_eqb (a b : ControlSpace) : bool :=
  match a, b with
  | CS_kJoint, CS_kJoint | CS_kCartesian, CS_kCartesian | CS_kTask, CS_kTask
  | CS_kNullSpace, CS_kNullSpace | CS_kUserDefined, CS_kUserDefined
  | CS_kUnknown, CS_kUnknown => true
  | _, _ => false
  end.

Definition ControlType_eqb (a b : ControlType) : bool :=
  match a, b with
  | CT_kPosition, CT_kPosition | CT_kVelocity, CT_kVelocity | CT_kTorque, CT_kTorque
  | CT_kImpedance, CT_kImpedance | CT_kAdmittance, CT_kAdmittance
  | CT_kCommand, CT_kCommand | CT_kExtern, CT_kExtern | CT_kUnknown, CT_kUnknown => true
  | _, _ => false
  end.

(** [struct ControllerMode] *)
Record ControllerMode : Type := mkControllerMode {
  space : ControlSpace;
  type : ControlType
}.

(** [constexpr ControllerMode() = default;] *)
Definition ControllerMode_default : ControllerMode :=
  {| space := CS_kUnknown; type := CT_kUnknown |}.

(** [ControllerMode::Create(s, t)] *)
Definition ControllerMode_Create (s : ControlSpace) (t : ControlType) : ControllerMode :=
  {| space := s; type := t |}.

(** [ControllerMode::JointPosition()] and [ControllerMode::TaskCommand()] *)
Definition ControllerMode_JointPosition : ControllerMode :=
  {| space := CS_kJoint; type := CT_kPosition |}.

(** The defaulted [operator==]: member-wise equality. *)
Definition ControllerMode_eqb (m o : ControllerMode) : bool :=
  (ControlSpace_eqb (space m) (space o) && ControlType_eqb (type m) (type o))%bool.

(** [is(ControlSpace s, ControlType t)] *)
Definition ControllerMode_is (m : ControllerMode) (s : ControlSpace) (t : ControlType) : bool :=
  (ControlSpace_eqb (space m) s && ControlType_eqb (type m) t)%bool.

(** [is(const ControllerMode& other)] *)
Definition ControllerMode_is_mode (m other : ControllerMode) : bool :=
  ControllerMode_eqb m other.

(** [ModeToString()] *)
Definition ModeToString (m : ControllerMode) : string :=
  (ControlSpaceToString (space m) ++ "-" ++ ControlTypeToString (type m))%string.

(** ** log_common.hpp *)

(** [port.find_last_of(c)]: [None] is [std::string::npos]. *)
Fixpoint find_last_of (c : Ascii.ascii) (s : string) : option nat :=
  match s with
  | EmptyString => None
  | String a rest =>
      match find_last_of c rest with
      | Some p => Some (S p)
      | None => if Ascii.eqb a c then Some 0%nat else None
      end
  end.

(** [s.substr(n)] for [n <= s.size()]. *)
Fixpoint substr_from (n : nat) (s : string) : string :=
  match n, s with
  | O, _ => s
  | S n', EmptyString => EmptyString
  | S n', String _ rest => substr_from n' rest
  end.

(** [logging::shorten_portname(port)] *)
Definition shorten_portname (port : string) : string :=
  match find_last_of "/"%char port with
  | Some pos => substr_from (S pos) port
  | None => port
  end.

(** ** timer_utils.hpp *)

(** [math::Clamp<T>(value, min_val, max_val)], at [T = int]. *)
Definition Clamp (value min_val max_val : Z) : Z :=
  if value <? min_val then min_val
  else if max_val <? value then max_val
  else value.

(** ** robot_state.hpp *)






(** Enumerations of the modes and a sample robot state, used in proofs. *)



(** ** Evaluations on small inputs *)

Example ToResponseStatus_3 : detail.ToResponseStatus 3 = kSubSuccess.
Proof. reflexivity. Qed.

Example ToResponseStatus_1 : detail.ToResponseStatus 1 = kUnknown.
Proof. reflexivity. Qed.

Example CreateCommands_empty :
  CreateCommands (@nil TorqueCommand) 30.0%float
  = Throw (ConstructorException CreateCommands_error).
Proof. reflexivity. Qed.

Example GenerateCommandIds_3 : GenerateCommandIds 3 commandId_init = ([1; 2; 3], 3).
Proof. reflexivity. Qed.

Example Advance_twice_single :
  current_index (Advance (Advance (CreateCommand TorqueCommand_default))) = 1%nat.
Proof. reflexivity. Qed.

(** ** Helper lemmas *)

Lemma emplace_all_fields {T} `{CommandType T} (sequence : list T) (rc : RobotCommand) :
  commands (emplace_all sequence rc) = commands rc ++ map to_variant sequence /\
  cmd_id (emplace_all sequence rc) = cmd_id rc /\
  cmd_size (emplace_all sequence rc) = cmd_size rc /\
  total_timeout (emplace_all sequence rc) = total_timeout rc /\
  current_index (emplace_all sequence rc) = current_index rc /\
  finished (emplace_all sequence rc) = finished rc /\
  status (emplace_all sequence rc) = status rc.
Proof.
  revert rc; induction sequence as [|c rest IH]; intros rc; simpl.
  - rewrite app_nil_r; repeat split.
  - destruct (IH (emplace_back c rc)) as (Hc & Hi & Hs & Ht & Hx & Hf & Hst).
    rewrite Hc, Hi, Hs, Ht, Hx, Hf, Hst; simpl.
    rewrite <- app_assoc; repeat split.
Qed.

(** ** Status vocabulary *)

(** C1: [IsActionFinished] holds exactly for success, user-stop, timeout,
    abort, fail and refused; sub-success, idle, sending, waiting and unknown
    are not terminal. *)
Theorem IsActionFinished_iff_terminal : forall s : ResponseStatus,
  (detail.IsActionFinished s = true <->
   In s [kSuccess; kUserStop; kTimeout; kAbort; kFail; kRefused]) /\
  detail.IsActionFinished kSubSuccess = false /\
  detail.IsActionFinished kIdle = false /\
  detail.IsActionFinished kSending = false /\
  detail.IsActionFinished kWaiting = false /\
  detail.IsActionFinished kUnknown = false.
Proof.
  intros s; split; [| repeat split].
  destruct s; simpl; intuition discriminate.
Qed.

(** C2: [ToResponseStatus r] is the status numbered [r] when [r] lies in
    [kWaiting .. kRefused] (2 .. 9) and [kUnknown] otherwise; 255 decodes to
    [kUnknown]. *)
Theorem ToResponseStatus_decodes : forall r : Z,
  (2 <= r <= 9 -> ResponseStatus_to_uint32 (detail.ToResponseStatus r) = r) /\
  (~ (2 <= r <= 9) -> detail.ToResponseStatus r = kUnknown) /\
  detail.ToResponseStatus 255 = kUnknown.
Proof.
  intros r; split; [| split; [| reflexivity]]; intros Hr.
  - assert (r = 2 \/ r = 3 \/ r = 4 \/ r = 5 \/ r = 6 \/ r = 7 \/ r = 8 \/ r = 9)
      as Hcases by lia.
    repeat (destruct Hcases as [-> | Hcases]; [reflexivity |]); subst; reflexivity.
  - unfold detail.ToResponseStatus; simpl.
    destruct (2 <=? r) eqn:E1, (r <=? 9) eqn:E2; simpl; try reflexivity.
    apply Z.leb_le in E1; apply Z.leb_le in E2; lia.
Qed.

(** C10: [StringToEndEffectorActionSafe] inverts [EndEffectorActionToString]
    on the four actions (for both the [string_view] and the [const char* ]
    overload), and any other string, or the null pointer, gives [Idle]. *)
Theorem EndEffectorAction_string_roundtrip :
  (forall a, detail.StringToEndEffectorActionSafe (detail.EndEffectorActionToString a) = a) /\
  (forall a, detail.StringToEndEffectorActionSafe_cstr
               (Some (detail.EndEffectorActionToString a)) = a) /\
  (forall s, ~ In s ["Idle"; "Open"; "Close"; "ForceClose"]%string ->
     detail.StringToEndEffectorActionSafe s = Idle /\
     detail.StringToEndEffectorActionSafe_cstr (Some s) = Idle) /\
  detail.StringToEndEffectorActionSafe_cstr None = Idle.
Proof.
  assert (Hs : forall s, ~ In s ["Idle"; "Open"; "Close"; "ForceClose"]%string ->
                 detail.StringToEndEffectorActionSafe s = Idle).
  { intros s Hn; unfold detail.StringToEndEffectorActionSafe.
    destruct (String.eqb_spec s "Idle"); [reflexivity |].
    destruct (String.eqb_spec s "Open"); [subst; simpl in Hn; tauto |].
    destruct (String.eqb_spec s "Close"); [subst; simpl in Hn; tauto |].
    destruct (String.eqb_spec s "ForceClose"); [subst; simpl in Hn; tauto |].
    reflexivity. }
  split; [intros []; reflexivity |].
  split; [intros []; reflexivity |].
  split; [| reflexivity].
  intros s Hn; split; apply Hs, Hn.
Qed.

(** ** Command sequences *)

(** C3: [CreateCommands] on [1 <= N <= cmd_list_size] commands builds an
    ordered copy of length [N] with [cmd_size = N], the given total timeout,
    cursor 0, not finished and status idle; on [N = 0] or [N > cmd_list_size]
    it throws a [ConstructorException] and builds nothing. *)
Theorem CreateCommands_spec : forall (T : Type) (CT : CommandType T)
  (sequence : list T) (t : double),
  ((1 <= List.length sequence <= cmd_list_size)%nat ->
   exists rc, CreateCommands sequence t = Ok rc /\
     commands rc = map to_variant sequence /\
     List.length (commands rc) = List.length sequence /\
     cmd_size rc = List.length sequence /\
     total_timeout rc = t /\
     current_index rc = 0%nat /\
     finished rc = false /\
     status rc = kIdle) /\
  ((List.length sequence = 0 \/ cmd_list_size < List.length sequence)%nat ->
   CreateCommands sequence t = Throw (ConstructorException CreateCommands_error)).
Proof.
  intros T CT sequence t; split.
  - intros Hn; unfold CreateCommands.
    replace ((List.length sequence =? 0)%nat || (cmd_list_size <? List.length sequence)%nat)%bool
      with false.
    2:{ symmetry; apply Bool.orb_false_iff; split.
        - apply Nat.eqb_neq; lia.
        - apply Nat.ltb_ge; lia. }
    eexists; split; [reflexivity |].
    destruct (emplace_all_fields sequence
                (set_total_timeout t (set_cmd_size (List.length sequence) RobotCommand_default)))
      as (Hc & _ & Hs & Ht & Hx & Hf & Hst).
    rewrite Hc, Hs, Ht, Hx, Hf, Hst; simpl.
    rewrite length_map; repeat split.
  - intros Hn; unfold CreateCommands.
    replace ((List.length sequence =? 0)%nat || (cmd_list_size <? List.length sequence)%nat)%bool
      with true; [reflexivity |].
    symmetry; apply Bool.orb_true_iff.
    destruct Hn as [Hn | Hn]; [left; apply Nat.eqb_eq | right; apply Nat.ltb_lt]; lia.
Qed.

(** C8: [CreateCommand c] is a sequence of exactly one step holding [c]
    whose total timeout is [c]'s own timeout. *)
Theorem CreateCommand_single : forall (T : Type) (CT : CommandType T) (c : T),
  commands (CreateCommand c) = [to_variant c] /\
  cmd_size (CreateCommand c) = 1%nat /\
  total_timeout (CreateCommand c) = timeout c.
Proof. intros T CT c; repeat split. Qed.

(** C7: [Current] returns the step at the cursor when the cursor is below
    the length, throws (the [ControlException] "current_index out of range")
    exactly when the cursor is at or past the length, and leaves the
    sequence unchanged. *)
Theorem Current_spec : forall rc : RobotCommand,
  (forall v, nth_error (commands rc) (current_index rc) = Some v -> Current rc = Ok v) /\
  ((current_index rc < List.length (commands rc))%nat ->
   exists v, nth_error (commands rc) (current_index rc) = Some v /\ Current rc = Ok v) /\
  ((exists e, Current rc = Throw e) <-> (List.length (commands rc) <= current_index rc)%nat) /\
  ((List.length (commands rc) <= current_index rc)%nat ->
   Current rc = Throw (ControlException Current_error)) /\
  snd (rc_step OpCurrent rc) = rc.
Proof.
  intros rc.
  assert (Hok : forall v, nth_error (commands rc) (current_index rc) = Some v ->
                          Current rc = Ok v).
  { intros v Hv; unfold Current.
    pose proof (nth_error_Some (commands rc) (current_index rc)) as Hlt.
    rewrite Hv in Hlt.
    replace (List.length (commands rc) <=? current_index rc)%nat with false
      by (symmetry; apply Nat.leb_gt; apply Hlt; discriminate).
    f_equal; apply nth_error_nth; exact Hv. }
  assert (Hthrow : (List.length (commands rc) <= current_index rc)%nat ->
                   Current rc = Throw (ControlException Current_error)).
  { intros Hle; unfold Current.
    replace (List.length (commands rc) <=? current_index rc)%nat with true
      by (symmetry; apply Nat.leb_le; exact Hle).
    reflexivity. }
  repeat split.
  - exact Hok.
  - intros Hlt.
    destruct (nth_error (commands rc) (current_index rc)) as [v|] eqn:Hv.
    + exists v; split; [reflexivity | apply Hok; reflexivity].
    + apply nth_error_None in Hv; lia.
  - intros [e He].
    destruct (Nat.le_gt_cases (List.length (commands rc)) (current_index rc)) as [Hle|Hlt];
      [exact Hle |].
    destruct (nth_error (commands rc) (current_index rc)) as [v|] eqn:Hv.
    + rewrite (Hok v eq_refl) in He; discriminate.
    + apply nth_error_None in Hv; lia.
  - intros Hle; eexists; apply Hthrow; exact Hle.
  - exact Hthrow.
Qed.

Lemma rc_step_commands : forall op rc, commands (snd (rc_step op rc)) = commands rc.
Proof.
  intros [] rc; simpl; try reflexivity.
  unfold Advance; destruct (_ <? _)%nat; reflexivity.
Qed.

Lemma rc_step_cursor : forall op rc,
  (current_index rc <= current_index (snd (rc_step op rc)))%nat /\
  ((current_index rc <= List.length (commands rc))%nat ->
   (current_index (snd (rc_step op rc)) <= List.length (commands rc))%nat).
Proof.
  intros [] rc; simpl; try lia.
  unfold Advance; destruct (current_index rc <? List.length (commands rc))%nat eqn:E;
    simpl; [apply Nat.ltb_lt in E | apply Nat.ltb_ge in E]; lia.
Qed.

Lemma run_ops_app : forall ops1 ops2 rc,
  run_ops (ops1 ++ ops2) rc = run_ops ops2 (run_ops ops1 rc).
Proof. induction ops1 as [|op ops1 IH]; intros ops2 rc; simpl; auto. Qed.

Lemma run_ops_commands : forall ops rc, commands (run_ops ops rc) = commands rc.
Proof.
  induction ops as [|op ops IH]; intros rc; simpl; [reflexivity |].
  rewrite IH; apply rc_step_commands.
Qed.

Lemma run_ops_cursor : forall ops rc,
  (current_index rc <= current_index (run_ops ops rc))%nat /\
  ((current_index rc <= List.length (commands rc))%nat ->
   (current_index (run_ops ops rc) <= List.length (commands (run_ops ops rc)))%nat).
Proof.
  induction ops as [|op ops IH]; intros rc; simpl; [split; lia |].
  destruct (rc_step_cursor op rc) as [Hm Hb].
  destruct (IH (snd (rc_step op rc))) as [Hm' Hb'].
  rewrite rc_step_commands in Hb'; split; [lia |].
  intros H; apply Hb', Hb, H.
Qed.

Lemma run_ops_from_start : forall rc ops1 ops2,
  current_index rc = 0%nat ->
  (current_index rc <= current_index (run_ops ops1 rc)
     <= current_index (run_ops (ops1 ++ ops2) rc))%nat /\
  (current_index (run_ops (ops1 ++ ops2) rc)
     <= List.length (commands (run_ops (ops1 ++ ops2) rc)))%nat.
Proof.
  intros rc ops1 ops2 H0.
  rewrite run_ops_app.
  destruct (run_ops_cursor ops1 rc) as [Hm1 Hb1].
  destruct (run_ops_cursor ops2 (run_ops ops1 rc)) as [Hm2 Hb2].
  split; [lia |].
  apply Hb2, Hb1; lia.
Qed.

(** C4: [Advance] moves the cursor up by one below the end and does nothing
    at the end; no other member function changes the sequence; [HasNext]
    holds exactly when the cursor is below the length; so from a sequence
    just built by [CreateCommands] or [CreateCommand], along any run of
    member calls the cursor never decreases and stays within the length. *)
Theorem RobotCommand_cursor_invariant :
  (forall rc, (current_index rc < List.length (commands rc))%nat ->
     current_index (Advance rc) = S (current_index rc) /\
     commands (Advance rc) = commands rc) /\
  (forall rc, current_index rc = List.length (commands rc) -> Advance rc = rc) /\
  (forall op rc, op <> OpAdvance -> snd (rc_step op rc) = rc) /\
  (forall rc, HasNext rc = true <-> (current_index rc < List.length (commands rc))%nat) /\
  (forall (T : Type) (CT : CommandType T) (sequence : list T) t rc ops1 ops2,
     CreateCommands sequence t = Ok rc ->
     (current_index rc <= current_index (run_ops ops1 rc)
        <= current_index (run_ops (ops1 ++ ops2) rc))%nat /\
     (current_index (run_ops (ops1 ++ ops2) rc)
        <= List.length (commands (run_ops (ops1 ++ ops2) rc)))%nat) /\
  (forall (T : Type) (CT : CommandType T) (c : T) ops1 ops2,
     (current_index (CreateCommand c) <= current_index (run_ops ops1 (CreateCommand c))
        <= current_index (run_ops (ops1 ++ ops2) (CreateCommand c)))%nat /\
     (current_index (run_ops (ops1 ++ ops2) (CreateCommand c))
        <= List.length (commands (run_ops (ops1 ++ ops2) (CreateCommand c))))%nat).
Proof.
  split.
  { intros rc Hlt; unfold Advance.
    replace (current_index rc <? List.length (commands rc))%nat with true
      by (symmetry; apply Nat.ltb_lt; exact Hlt).
    split; reflexivity. }
  split.
  { intros rc Heq; unfold Advance.
    replace (current_index rc <? List.length (commands rc))%nat with false
      by (symmetry; apply Nat.ltb_ge; lia).
    reflexivity. }
  split.
  { intros [] rc Hop; simpl; congruence. }
  split.
  { intros rc; unfold HasNext; apply Nat.ltb_lt. }
  split.
  { intros T CT sequence t rc ops1 ops2 Hc.
    apply run_ops_from_start.
    unfold CreateCommands in Hc.
    destruct (_ || _)%bool; [discriminate |].
    injection Hc as <-.
    destruct (emplace_all_fields sequence
                (set_total_timeout t (set_cmd_size (List.length sequence) RobotCommand_default)))
      as (_ & _ & _ & _ & Hx & _).
    rewrite Hx; reflexivity. }
  intros T CT c ops1 ops2; apply run_ops_from_start; reflexivity.
Qed.

(** ** Command identifiers *)

Lemma GenerateCommandIds_formula : forall K c, 0 <= c < 2 ^ 32 ->
  GenerateCommandIds K c =
  (map (fun i => (c + Z.of_nat i + 1) mod 2 ^ 32) (seq 0 K),
   (c + Z.of_nat K) mod 2 ^ 32).
Proof.
  induction K as [|K IH]; intros c Hc.
  - simpl; rewrite Z.add_0_r, Z.mod_small by lia; reflexivity.
  - change (GenerateCommandIds (S K) c) with
      (let (ids, c') := GenerateCommandIds K ((c + 1) mod 2 ^ 32) in
       ((c + 1) mod 2 ^ 32 :: ids, c')).
    rewrite (IH ((c + 1) mod 2 ^ 32)) by (apply Z.mod_pos_bound; lia).
    cbn [seq map]; rewrite <- seq_shift, map_map.
    f_equal; [f_equal; [f_equal; lia |] | ].
    + apply map_ext; intros i.
      rewrite <- Z.add_assoc, Zplus_mod_idemp_l; f_equal; lia.
    + rewrite Zplus_mod_idemp_l; f_equal; lia.
Qed.

Lemma map_seq_sorted : forall (f : nat -> Z) n a,
  (forall i j, (a <= i < j)%nat -> (j < a + n)%nat -> f i < f j) ->
  StronglySorted Z.lt (map f (seq a n)).
Proof.
  intros f; induction n as [|n IH]; intros a Hf; simpl; constructor.
  - apply IH; intros i j Hij Hj; apply Hf; lia.
  - apply Forall_map, Forall_forall; intros j Hj; apply in_seq in Hj.
    apply Hf; lia.
Qed.

Lemma StronglySorted_lt_NoDup : forall l : list Z,
  StronglySorted Z.lt l -> NoDup l.
Proof.
  induction l as [|x l IH]; intros Hs; constructor; inversion Hs; subst.
  - intros Hin; rewrite Forall_forall in H2; specialize (H2 x Hin); lia.
  - apply IH; assumption.
Qed.

(** C5 (as the code has it): [GenerateCommandId] is one [uint32_t] counter,
    pre-incremented modulo [2^32]: from counter [c], [K] calls return
    [(c+1) mod 2^32, ..., (c+K) mod 2^32] and leave [(c+K) mod 2^32]; while
    no wrap occurs ([c + K < 2^32]) the values are strictly increasing and
    pairwise distinct. *)
Theorem GenerateCommandIds_spec : forall (K : nat) (c : Z), 0 <= c < 2 ^ 32 ->
  fst (GenerateCommandIds K c) = map (fun i => (c + Z.of_nat i + 1) mod 2 ^ 32) (seq 0 K) /\
  snd (GenerateCommandIds K c) = (c + Z.of_nat K) mod 2 ^ 32 /\
  (c + Z.of_nat K < 2 ^ 32 ->
   StronglySorted Z.lt (fst (GenerateCommandIds K c)) /\
   NoDup (fst (GenerateCommandIds K c))).
Proof.
  intros K c Hc; rewrite GenerateCommandIds_formula by exact Hc; simpl.
  split; [reflexivity |]; split; [reflexivity |].
  intros Hno.
  assert (Hs : StronglySorted Z.lt
                 (map (fun i => (c + Z.of_nat i + 1) mod 2 ^ 32) (seq 0 K))).
  { apply map_seq_sorted; intros i j Hij Hj.
    rewrite !Z.mod_small by lia; lia. }
  split; [exact Hs | apply StronglySorted_lt_NoDup, Hs].
Qed.

Lemma GenerateCommandIds_spec_witness :
  0 <= commandId_init < 2 ^ 32 /\
  fst (GenerateCommandIds 3 commandId_init) = [1; 2; 3].
Proof.
  assert (H0 : 0 <= commandId_init < 2 ^ 32) by (unfold commandId_init; lia).
  split; [exact H0 |].
  destruct (GenerateCommandIds_spec 3 commandId_init H0) as (H & _).
  rewrite H; reflexivity.
Defined.

(** C5 refuted: the calls of a process are not strictly increasing for
    every [K]; the [2^32]-th call wraps the counter and returns 0 after the
    first call returned 1. *)
Lemma GenerateCommandIds_wraps :
  ~ (forall K : nat, StronglySorted Z.lt (fst (GenerateCommandIds K commandId_init))).
Proof.
  intros H.
  set (k := Z.to_nat (2 ^ 32 - 2)).
  assert (Hk : Z.of_nat k = 2 ^ 32 - 2) by (unfold k; rewrite Z2Nat.id; lia).
  clearbody k.
  specialize (H (S (S k))).
  rewrite GenerateCommandIds_formula in H by (unfold commandId_init; lia).
  unfold fst in H.
  replace (seq 0 (S (S k))) with (0%nat :: seq 1 k ++ [S k]) in H
    by (rewrite <- seq_S; reflexivity).
  rewrite map_cons, map_app in H.
  apply StronglySorted_inv in H; destruct H as [_ Hall].
  apply Forall_app in Hall; destruct Hall as [_ Hlast].
  apply Forall_inv in Hlast; rename Hlast into Hlt.
  unfold commandId_init in Hlt; cbv beta in Hlt.
  replace (0 + Z.of_nat (S k) + 1) with (2 ^ 32) in Hlt by lia.
  rewrite Z_mod_same_full in Hlt.
  cbn in Hlt; lia.
Qed.

(** C9: before the counter wraps, [GenerateCommandId] never returns 0 (its
    first value is 1, each call pre-increments), while [CreateCommands] and
    [CreateCommand] leave [cmd_id = 0]; so a sequence given an identifier at
    dispatch ([assign_dispatch_id]) at any of the first [2^32 - 1] calls has
    [cmd_id <> 0], and [cmd_id = 0] marks a sequence never dispatched. *)
Theorem cmd_id_zero_marks_undispatched :
  fst (GenerateCommandId commandId_init) = 1 /\
  (forall c, 0 <= c < 2 ^ 32 - 1 -> fst (GenerateCommandId c) <> 0) /\
  (forall K : nat, Z.of_nat K < 2 ^ 32 ->
     ~ In 0 (fst (GenerateCommandIds K commandId_init))) /\
  (forall (T : Type) (CT : CommandType T) (sequence : list T) t rc,
     CreateCommands sequence t = Ok rc -> cmd_id rc = 0) /\
  (forall (T : Type) (CT : CommandType T) (c : T), cmd_id (CreateCommand c) = 0) /\
  (forall (n : nat) rc, Z.of_nat n < 2 ^ 32 - 1 ->
     cmd_id (fst (assign_dispatch_id (snd (GenerateCommandIds n commandId_init)) rc)) <> 0).
Proof.
  assert (Hgen : forall c, 0 <= c < 2 ^ 32 - 1 -> fst (GenerateCommandId c) <> 0).
  { intros c Hc; unfold GenerateCommandId; simpl.
    rewrite Z.mod_small by lia; lia. }
  split; [reflexivity |].
  split; [exact Hgen |].
  split.
  { intros K HK Hin.
    rewrite GenerateCommandIds_formula in Hin by (unfold commandId_init; lia).
    simpl in Hin; apply in_map_iff in Hin.
    destruct Hin as (i & Hi & Hseq); apply in_seq in Hseq.
    unfold commandId_init in Hi.
    rewrite Z.mod_small in Hi by lia; lia. }
  split.
  { intros T CT sequence t rc Hc.
    unfold CreateCommands in Hc.
    destruct (_ || _)%bool; [discriminate |].
    injection Hc as <-.
    destruct (emplace_all_fields sequence
                (set_total_timeout t (set_cmd_size (List.length sequence) RobotCommand_default)))
      as (_ & Hi & _).
    rewrite Hi; reflexivity. }
  split; [reflexivity |].
  intros n rc Hn.
  rewrite GenerateCommandIds_formula by (unfold commandId_init; lia).
  unfold assign_dispatch_id, snd.
  unfold commandId_init; rewrite Z.mod_small by lia.
  pose proof (Hgen (0 + Z.of_nat n)) as Hg.
  destruct (GenerateCommandId (0 + Z.of_nat n)) as [id c'] eqn:E.
  simpl in *; apply Hg; lia.
Qed.

(** ** Command types *)

(** C6 (as the code has it): [MotionCommand::CreateCommand] copies the joint
    positions and stores [timeout_s] as given, with no check, leaving every
    other field at its default (its default argument is 30.0);
    [TorqueCommand] and [EndEffectorCommand] have no factory and default to
    a timeout of 10.0. *)
Theorem command_timeouts_unvalidated : forall (jp : list double) (t : double),
  MotionCommand_CreateCommand jp t =
    {| joint_positions := jp;
       joint_velocities := zero_array JOINT_NUM;
       ee_transform := zero_array 16;
       ee_velocity := zero_array 6;
       elbow := zero_array 2;
       has_elbow := false;
       mc_timeout := t |} /\
  mc_timeout (MotionCommand_CreateCommand_default jp) = 30.0%float /\
  PrimFloat.ltb 0 (mc_timeout (MotionCommand_CreateCommand_default jp)) = true /\
  tc_timeout TorqueCommand_default = 10.0%float /\
  ee_timeout EndEffectorCommand_default = 10.0%float.
Proof. intros jp t; repeat split. Qed.

(** C6 refuted: [MotionCommand::CreateCommand] with [timeout_s = -1.0]
    yields a command whose timeout is not greater than 0. *)
Lemma MotionCommand_CreateCommand_negative_timeout :
  ~ (forall (jp : list double) (t : double),
       PrimFloat.ltb 0 (mc_timeout (MotionCommand_CreateCommand jp t)) = true).
Proof.
  intros H.
  specialize (H (zero_array JOINT_NUM) (-1)%float).
  vm_compute in H; discriminate H.
Qed.

(** ** Further properties of the command layer *)

Example shorten_portname_tmp : shorten_portname "/tmp/ttyV1" = "ttyV1"%string.
Proof. reflexivity. Qed.

Example ModeToString_JointPosition :
  ModeToString ControllerMode_JointPosition = "Joint-Position"%string.
Proof. reflexivity. Qed.

Lemma ToResponseStatus_outside : forall r : Z,
  ~ (2 <= r <= 9) -> detail.ToResponseStatus r = kUnknown.
Proof.
  intros r Hr; unfold detail.ToResponseStatus; simpl.
  destruct (2 <=? r) eqn:E1, (r <=? 9) eqn:E2; simpl; try reflexivity.
  apply Z.leb_le in E1; apply Z.leb_le in E2; lia.
Qed.

(** Encoding a status with [static_cast<uint32_t>] and decoding it with
    [ToResponseStatus] gives it back for waiting .. refused; idle, sending
    and unknown come back as unknown. *)
Theorem ToResponseStatus_of_encoded : forall s : ResponseStatus,
  detail.ToResponseStatus (ResponseStatus_to_uint32 s) =
  match s with
  | kIdle | kSending | kUnknown => kUnknown
  | _ => s
  end.
Proof. intros []; reflexivity. Qed.

(** A raw status code decodes to a terminal status exactly when it lies in
    4 .. 9 (success .. refused); 2 (waiting), 3 (sub-success) and every
    out-of-range code are not terminal. *)
Theorem IsActionFinished_raw_code : forall r : Z,
  detail.IsActionFinished (detail.ToResponseStatus r) = true <-> 4 <= r <= 9.
Proof.
  intros r.
  destruct (Z_le_dec 2 r) as [H2|H2]; [destruct (Z_le_dec r 9) as [H9|H9] |].
  - assert (r = 2 \/ r = 3 \/ r = 4 \/ r = 5 \/ r = 6 \/ r = 7 \/ r = 8 \/ r = 9)
      as Hc by lia.
    repeat (destruct Hc as [-> | Hc]; [simpl; split; intros; (lia || reflexivity || discriminate) |]);
      subst; simpl; split; intros; (lia || reflexivity).
  - rewrite ToResponseStatus_outside by lia; simpl; split; [discriminate | lia].
  - rewrite ToResponseStatus_outside by lia; simpl; split; [discriminate | lia].
Qed.

(** [ResponseStatusToString] gives every status a label of its own. *)
Theorem ResponseStatusToString_injective : forall a b : ResponseStatus,
  detail2.ResponseStatusToString a = detail2.ResponseStatusToString b -> a = b.
Proof. intros [] []; simpl; intros H; (reflexivity || discriminate H). Qed.

(** [RefusedReasonToString] gives every refusal reason a label of its own. *)
Theorem RefusedReasonToString_injective : forall a b : RefusedReason,
  RefusedReasonToString a = RefusedReasonToString b -> a = b.
Proof. intros [] []; simpl; intros H; (reflexivity || discriminate H). Qed.

(** The defaulted [operator==] of [ControllerMode] is exact equality of
    modes, and [is(s, t)] holds exactly for the mode [Create(s, t)]. *)
Theorem ControllerMode_eq_exact : forall (m o : ControllerMode) s t,
  (ControllerMode_eqb m o = true <-> m = o) /\
  (ControllerMode_is_mode m o = true <-> m = o) /\
  (ControllerMode_is m s t = true <-> m = ControllerMode_Create s t).
Proof.
  assert (Hs : forall a b, ControlSpace_eqb a b = true <-> a = b)
    by (intros [] []; simpl; split; intros H; (reflexivity || discriminate H)).
  assert (Ht : forall a b, ControlType_eqb a b = true <-> a = b)
    by (intros [] []; simpl; split; intros H; (reflexivity || discriminate H)).
  assert (Hm : forall m o, ControllerMode_eqb m o = true <-> m = o).
  { intros [sm tm] [so to]; unfold ControllerMode_eqb; simpl.
    rewrite Bool.andb_true_iff, Hs, Ht; split.
    - intros [-> ->]; reflexivity.
    - intros H; injection H as -> ->; split; reflexivity. }
  intros m o s t; split; [apply Hm |]; split; [apply Hm |].
  exact (Hm m (ControllerMode_Create s t)).
Qed.



Lemma CreateCommands_commands : forall (T : Type) (CT : CommandType T)
  (sequence : list T) t rc,
  CreateCommands sequence t = Ok rc ->
  commands rc = map to_variant sequence /\ current_index rc = 0%nat.
Proof.
  intros T CT sequence t rc Hc.
  unfold CreateCommands in Hc.
  destruct (_ || _)%bool; [discriminate |].
  injection Hc as <-.
  destruct (emplace_all_fields sequence
              (set_total_timeout t (set_cmd_size (List.length sequence) RobotCommand_default)))
    as (Hcm & _ & _ & _ & Hx & _).
  rewrite Hcm, Hx; split; reflexivity.
Qed.

(** For a sequence built by [CreateCommands] from motion commands, the
    projections return their joint targets and their timeouts in order, and
    no end-effector action. *)
Theorem getters_of_motion_sequence : forall (sequence : list MotionCommand) t rc,
  CreateCommands sequence t = Ok rc ->
  getJointPositionsVec rc = map joint_positions sequence /\
  getTimeoutVec rc = map mc_timeout sequence /\
  getEEActionsVecStr rc = [].
Proof.
  intros sequence t rc Hc.
  destruct (CreateCommands_commands _ _ sequence t rc Hc) as [Hcm _].
  unfold getJointPositionsVec, getTimeoutVec, getEEActionsVecStr; rewrite Hcm.
  change (map to_variant sequence) with (map VMotion sequence).
  clear Hc Hcm; induction sequence as [|c rest IH]; simpl; [repeat split |].
  destruct IH as (H1 & H2 & H3); rewrite H1, H2, H3; repeat split.
Qed.

Lemma getters_of_motion_sequence_witness :
  CreateCommands [MotionCommand_CreateCommand_default (zero_array JOINT_NUM)] 30.0%float
  = Ok (CreateCommand (MotionCommand_CreateCommand_default (zero_array JOINT_NUM))) /\
  getJointPositionsVec (CreateCommand (MotionCommand_CreateCommand_default (zero_array JOINT_NUM)))
  = [zero_array JOINT_NUM].
Proof.
  split; [reflexivity |].
  apply (getters_of_motion_sequence
           [MotionCommand_CreateCommand_default (zero_array JOINT_NUM)] 30.0%float);
    reflexivity.
Defined.



(** Every step has one timeout in [getTimeoutVec], and every step is counted
    by exactly one of [getJointPositionsVec] (motion), [getEEActionsVecStr]
    (end effector) or the torque steps; none of the member calls changes
    what the projections return. *)
Theorem getters_partition_steps : forall (rc : RobotCommand) (ops : list rc_op),
  List.length (getTimeoutVec rc) = List.length (commands rc) /\
  (List.length (getJointPositionsVec rc) + List.length (getEEActionsVecStr rc) +
   List.length (filter (fun v => match v with VTorque _ => true | _ => false end)
                  (commands rc)) = List.length (commands rc))%nat /\
  getTimeoutVec (run_ops ops rc) = getTimeoutVec rc /\
  getJointPositionsVec (run_ops ops rc) = getJointPositionsVec rc /\
  getEEActionsVecStr (run_ops ops rc) = getEEActionsVecStr rc.
Proof.
  intros rc ops.
  unfold getTimeoutVec, getJointPositionsVec, getEEActionsVecStr.
  rewrite run_ops_commands.
  split; [apply length_map |].
  split; [| repeat split].
  induction (commands rc) as [|v rest IH]; simpl; [reflexivity |].
  destruct v; simpl; rewrite ?length_app; simpl; lia.
Qed.

Lemma Advance_iter : forall n rc,
  (current_index rc <= List.length (commands rc))%nat ->
  commands (Nat.iter n Advance rc) = commands rc /\
  current_index (Nat.iter n Advance rc) =
    Nat.min (current_index rc + n) (List.length (commands rc)).
Proof.
  induction n as [|n IH]; intros rc Hle.
  - change (Nat.iter 0 Advance rc) with rc; split; [reflexivity |].
    rewrite Nat.add_0_r, Nat.min_l by exact Hle; reflexivity.
  - rewrite Nat.iter_succ.
    destruct (IH rc Hle) as [Hc Hx].
    set (r := Nat.iter n Advance rc) in *.
    pose proof (Nat.min_spec (current_index rc + n) (List.length (commands rc))).
    pose proof (Nat.min_spec (current_index rc + S n) (List.length (commands rc))).
    unfold Advance.
    destruct (current_index r <? List.length (commands r))%nat eqn:E;
      [apply Nat.ltb_lt in E | apply Nat.ltb_ge in E];
      cbn [commands current_index set_current_index]; rewrite Hc in *;
      split; try reflexivity; lia.
Qed.

(** From cursor 0, [n] calls of [Advance] put the cursor at [min n length];
    while [n] is below the length, [Current] then returns the [n]-th step
    (in input order) and [HasNext] holds, and from [n = length] on
    [HasNext] is false and [Current] throws. *)
Theorem Advance_walks_steps : forall (n : nat) (rc : RobotCommand),
  current_index rc = 0%nat ->
  current_index (Nat.iter n Advance rc) = Nat.min n (List.length (commands rc)) /\
  ((n < List.length (commands rc))%nat ->
   HasNext (Nat.iter n Advance rc) = true /\
   exists v, nth_error (commands rc) n = Some v /\ Current (Nat.iter n Advance rc) = Ok v) /\
  ((List.length (commands rc) <= n)%nat ->
   HasNext (Nat.iter n Advance rc) = false /\
   Current (Nat.iter n Advance rc) = Throw (ControlException Current_error)).
Proof.
  intros n rc H0.
  destruct (Advance_iter n rc ltac:(lia)) as [Hc Hx].
  rewrite H0 in Hx; simpl in Hx.
  split; [exact Hx |]; split.
  - intros Hlt.
    unfold HasNext, Current; rewrite Hc, Hx.
    rewrite Nat.min_l by lia.
    split; [apply Nat.ltb_lt; exact Hlt |].
    destruct (nth_error (commands rc) n) as [v|] eqn:Hv;
      [| apply nth_error_None in Hv; lia].
    exists v; split; [reflexivity |].
    replace (List.length (commands rc) <=? n)%nat with false
      by (symmetry; apply Nat.leb_gt; exact Hlt).
    f_equal; apply nth_error_nth; exact Hv.
  - intros Hle.
    unfold HasNext, Current; rewrite Hc, Hx.
    rewrite Nat.min_r by lia.
    rewrite Nat.ltb_irrefl, Nat.leb_refl; split; reflexivity.
Qed.

Lemma Advance_walks_steps_witness :
  current_index (CreateCommand TorqueCommand_default) = 0%nat /\
  HasNext (Nat.iter 1 Advance (CreateCommand TorqueCommand_default)) = false.
Proof.
  split; [reflexivity |].
  apply (Advance_walks_steps 1 (CreateCommand TorqueCommand_default) eq_refl).
  simpl; lia.
Defined.

Lemma find_last_of_Some : forall c s p,
  find_last_of c s = Some p ->
  exists pre post, s = (pre ++ String c post)%string /\
    String.length pre = p /\ find_last_of c post = None.
Proof.
  intros c; induction s as [|a rest IH]; intros p H; simpl in H; [discriminate |].
  destruct (find_last_of c rest) as [p'|] eqn:Hr.
  - injection H as <-.
    destruct (IH p' eq_refl) as (pre & post & -> & Hl & Hn).
    exists (String a pre), post; simpl; rewrite Hl; split; [reflexivity | split; auto].
  - destruct (Ascii.eqb_spec a c) as [-> | _]; [| discriminate].
    injection H as <-; exists EmptyString, rest; repeat split; exact Hr.
Qed.

Lemma substr_from_app : forall pre s m,
  substr_from (String.length pre + m) (pre ++ s)%string = substr_from m s.
Proof. induction pre as [|a pre IH]; intros s m; simpl; [reflexivity | apply IH]. Qed.

Lemma string_append_assoc : forall a b c : string,
  (a ++ (b ++ c) = (a ++ b) ++ c)%string.
Proof. induction a as [|x a IH]; intros b c; simpl; [reflexivity | rewrite IH; reflexivity]. Qed.

Lemma shorten_portname_shape : forall port,
  (exists pre, port = (pre ++ shorten_portname port)%string) /\
  find_last_of "/"%char (shorten_portname port) = None.
Proof.
  intros port; unfold shorten_portname.
  destruct (find_last_of "/"%char port) as [p|] eqn:Hp.
  - destruct (find_last_of_Some _ _ _ Hp) as (pre & post & Hs & Hl & Hn).
    replace (substr_from (S p) port) with post.
    2:{ rewrite Hs, <- Hl, <- Nat.add_1_r, substr_from_app; reflexivity. }
    split; [| exact Hn].
    exists (pre ++ "/")%string; rewrite Hs, <- string_append_assoc; reflexivity.
  - split; [exists EmptyString; reflexivity | exact Hp].
Qed.

(** [shorten_portname] keeps what follows the last '/': its result is a
    suffix of the port name that contains no '/'; a name without '/' is
    returned as it is, so shortening twice is shortening once. *)
Theorem shorten_portname_spec : forall port : string,
  (exists pre, port = (pre ++ shorten_portname port)%string) /\
  find_last_of "/"%char (shorten_portname port) = None /\
  (find_last_of "/"%char port = None -> shorten_portname port = port) /\
  shorten_portname (shorten_portname port) = shorten_portname port.
Proof.
  intros port.
  destruct (shorten_portname_shape port) as [Hsuf Hno].
  split; [exact Hsuf |]; split; [exact Hno |]; split.
  - intros Hn; unfold shorten_portname; rewrite Hn; reflexivity.
  - unfold shorten_portname at 1; rewrite Hno; reflexivity.
Qed.

(** [Clamp] with [min_val <= max_val] returns a value in
    [min_val, max_val], returns in-range values unchanged, and clamping
    twice is clamping once. *)
Theorem Clamp_spec : forall value min_val max_val : Z,
  min_val <= max_val ->
  min_val <= Clamp value min_val max_val <= max_val /\
  (min_val <= value <= max_val -> Clamp value min_val max_val = value) /\
  Clamp (Clamp value min_val max_val) min_val max_val = Clamp value min_val max_val.
Proof.
  intros v lo hi Hlh.
  assert (Hin : lo <= Clamp v lo hi <= hi).
  { unfold Clamp; destruct (v <? lo) eqn:E1; [lia |].
    destruct (hi <? v) eqn:E2; [lia |].
    apply Z.ltb_ge in E1; apply Z.ltb_ge in E2; lia. }
  assert (Hfix : forall w, lo <= w <= hi -> Clamp w lo hi = w).
  { intros w Hw; unfold Clamp.
    replace (w <? lo) with false by (symmetry; apply Z.ltb_ge; lia).
    replace (hi <? w) with false by (symmetry; apply Z.ltb_ge; lia).
    reflexivity. }
  split; [exact Hin |]; split; [apply Hfix | apply Hfix, Hin].
Qed.

Lemma Clamp_spec_witness :
  0 <= 10 /\ Clamp 15 0 10 = 10.
Proof.
  split; [lia |].
  destruct (Clamp_spec 15 0 10 ltac:(lia)) as (_ & _ & H).
  rewrite <- H; reflexivity.
Defined.




Lemma ResponseStatusToString_injective_witness :
  detail2.ResponseStatusToString kTimeout = "Timeout"%string /\ kTimeout = kTimeout.
Proof.
  split; [reflexivity |].
  apply ResponseStatusToString_injective; reflexivity.
Defined.

Lemma RefusedReasonToString_injective_witness :
  RefusedReasonToString RR_RobotBusy = "RobotBusy"%string /\ RR_RobotBusy = RR_RobotBusy.
Proof.
  split; [reflexivity |].
  apply RefusedReasonToString_injective; reflexivity.
Defined.

